(** * clrgsr: the colour guesser of src/App.tsx

    A shallow embedding of the seed stepper [next], the colour derivation
    [makeHSV] and the round/session handlers [doCheck] and [doNext] of the
    [App] component, together with the properties of the specification
    that concern them.

    JavaScript numbers are IEEE 754 binary64 values.  The derived colours
    are modelled with the executable binary64 operations of [SpecFloat];
    seeds and counters, which only ever hold integers far below 2^53 in
    absolute value (where the binary64 operations on them are exact), are
    modelled as [Z], with the conversion to a 32-bit signed integer that
    the bitwise operators perform written out. *)

From Stdlib Require Import ZArith QArith Qabs List Bool Lia.
From Stdlib Require Import Floats.SpecFloat.
Import ListNotations.

Local Close Scope Q_scope.
Local Open Scope Z_scope.

(** ** JavaScript numbers *)

Module JS.

(** A JavaScript Number. *)
Definition number : Type := spec_float.

Definition prec : Z := 53.
Definition emax : Z := 1024.

(** The number [m * 2^e], rounded to binary64. *)
Definition dyadic (m e : Z) : number := binary_normalize prec emax m e false.

(** An integer read as a Number (exact below 2^53). *)
Definition ofInt (z : Z) : number := dyadic z 0.

Definition mul : number -> number -> number := SFmul prec emax.
Definition div : number -> number -> number := SFdiv prec emax.

(** The [%] operator: the remainder of the truncated division, computed
    exactly, with the sign of the dividend. *)
Definition rem (n d : number) : number :=
  match n, d with
  | S754_nan, _ | _, S754_nan => S754_nan
  | S754_infinity _, _ => S754_nan
  | _, S754_infinity _ => n
  | _, S754_zero _ => S754_nan
  | S754_zero _, _ => n
  | S754_finite sn mn en, S754_finite _ md ed =>
      let e := Z.min en ed in
      let a := Zpos (fst (shl_align mn en e)) in
      let b := Zpos (fst (shl_align md ed e)) in
      binary_normalize prec emax (cond_Zopp sn (Z.rem a b)) e sn
  end.

(** The [===] operator on Numbers. *)
Definition strictEq : number -> number -> bool := SFeqb.

Definition ltb : number -> number -> bool := SFltb.
Definition leb : number -> number -> bool := SFleb.

(** ToInt32: the operand of a bitwise operator is reduced modulo 2^32
    into the signed range. *)
Definition toInt32 (z : Z) : Z := (z + 2 ^ 31) mod 2 ^ 32 - 2 ^ 31.

(** [a & b], [a ^ b] and [a >> b] on integer-valued Numbers. *)
Definition band (a b : Z) : Z := Z.land (toInt32 a) (toInt32 b).
Definition bxor (a b : Z) : Z := Z.lxor (toInt32 a) (toInt32 b).
Definition sar (a b : Z) : Z := Z.shiftr (toInt32 a) (Z.land b 31).

End JS.

Declare Scope js_scope.
Delimit Scope js_scope with js.
Notation "x * y" := (JS.mul x y) : js_scope.
Notation "x / y" := (JS.div x y) : js_scope.
Notation "x 'mod' y" := (JS.rem x y) : js_scope.
Notation "x === y" := (JS.strictEq x y) (at level 70, no associativity) : js_scope.
Notation "# z" := (JS.ofInt z) (at level 1, format "# z") : js_scope.

(** ** The colour derivation *)

Inductive GuesserDifficulty : Set :=
| Easy     (* 6 hues, 4 saturation, 4 value *)
| Medium   (* 16 hues, 8 saturation, 8 value *)
| Hard.    (* 64 hues, 16 saturation, 16 value *)

Definition triple : Type := (JS.number * JS.number * JS.number)%type.

Definition makeHSVEasy (seed : Z) : triple :=
  let hue := (#(JS.band seed (JS.sar 0xff00 8)) / #6)%js in
  let hue := (((#360 / #6) * hue) mod #360)%js in
  let val := ((#100 / #4) * (#(JS.band seed (JS.sar 0xf0 4)) / #4))%js in
  let sat := ((#100 / #4) * (#(JS.band seed 0xf) / #4))%js in
  (hue, val, sat).

Definition makeHSVMedium (seed : Z) : triple :=
  let hue :=
    ((((#360 / #16) * #(JS.band seed (JS.sar 0xff00 8))) / #16) mod #360)%js in
  let val := ((#100 / #8) * (#(JS.band seed (JS.sar 0xf0 4)) / #2))%js in
  let sat := ((#100 / #8) * (#(JS.band seed 0xf) / #2))%js in
  (hue, val, sat).

Definition makeHSVHard (seed : Z) : triple :=
  let hue := (((#360 / #64) * #(JS.band seed (JS.sar 0x7f00 8))) mod #360)%js in
  let val := ((#100 / #16) * #(JS.band seed (JS.sar 0xf0 4)))%js in
  let sat := ((#100 / #16) * #(JS.band seed 0xf))%js in
  (hue, val, sat).

Definition makeHSV (difficulty : GuesserDifficulty) (seed : Z) : triple :=
  match difficulty with
  | Easy => makeHSVEasy seed
  | Medium => makeHSVMedium seed
  | Hard => makeHSVHard seed
  end.

(** ** The seed stepper *)

Definition TWIST : list Z := [32771; 16411; 14009; 11003].

(** [TWIST[i]]; an index outside the array reads [undefined], which the
    bitwise operators take as 0. *)
Definition TWIST_at (i : Z) : Z := nth (Z.to_nat i) TWIST 0.

(** The product is exact in binary64 for every seed the component ever
    holds (see [reachable_seed_exact]). *)
Definition next (seed : Z) : Z :=
  JS.bxor (seed * 65521) (TWIST_at (JS.band seed 0x3)).

(** ** Sessions and rounds *)

Module GuesserSession.
Record t : Type := Build
  { guessed : Z;
    score : Z;
    difficulty : GuesserDifficulty;
    seed : Z }.
End GuesserSession.

Module GuesserRound.
Record t : Type := Build
  { hue : JS.number;
    saturation : JS.number;
    value : JS.number;
    checking : bool;
    seed : Z }.
End GuesserRound.

(** [now] is the reading of [Date.now()]. *)
Definition initSession (now : Z) : GuesserSession.t :=
  {| GuesserSession.guessed := 0;
     GuesserSession.score := 0;
     GuesserSession.difficulty := Easy;
     GuesserSession.seed := JS.band now 0xffff |}.

Definition makeRound (difficulty : GuesserDifficulty) (seed : Z)
  : GuesserRound.t :=
  let '(hue, saturation, value) := makeHSV difficulty seed in
  let seed := next seed in
  {| GuesserRound.hue := hue;
     GuesserRound.saturation := saturation;
     GuesserRound.value := value;
     GuesserRound.seed := seed;
     GuesserRound.checking := false |}.

(** ** The component state and its handlers *)

Module App.

(** The five [useState] cells of the component. *)
Record state : Type := Build
  { session : GuesserSession.t;
    round : GuesserRound.t;
    hue : JS.number;
    sat : JS.number;
    val : JS.number }.

Definition init (now : Z) : state :=
  let session := initSession now in
  {| session := session;
     round := makeRound (GuesserSession.difficulty session)
                        (GuesserSession.seed session);
     hue := #0%js;
     sat := #0%js;
     val := #0%js |}.

Definition setRound (r : GuesserRound.t) (st : state) : state :=
  {| session := session st; round := r;
     hue := hue st; sat := sat st; val := val st |}.

Definition setSession (s : GuesserSession.t) (st : state) : state :=
  {| session := s; round := round st;
     hue := hue st; sat := sat st; val := val st |}.

Definition setHue (x : JS.number) (st : state) : state :=
  {| session := session st; round := round st;
     hue := x; sat := sat st; val := val st |}.

Definition setSat (x : JS.number) (st : state) : state :=
  {| session := session st; round := round st;
     hue := hue st; sat := x; val := val st |}.

Definition setVal (x : JS.number) (st : state) : state :=
  {| session := session st; round := round st;
     hue := hue st; sat := sat st; val := x |}.

Definition doCheck (st : state) : state :=
  let session := session st in
  let round := round st in
  let guessed := GuesserSession.guessed session + 1 in
  let score :=
    GuesserSession.score session +
    (if (hue st === GuesserRound.hue round)%js
        && (sat st === GuesserRound.saturation round)%js
        && (val st === GuesserRound.value round)%js
     then 1 else 0) in
  let st' :=
    setRound
      {| GuesserRound.hue := GuesserRound.hue round;
         GuesserRound.saturation := GuesserRound.saturation round;
         GuesserRound.value := GuesserRound.value round;
         GuesserRound.seed := GuesserRound.seed round;
         GuesserRound.checking := true |} st in
  setSession
    {| GuesserSession.guessed := guessed;
       GuesserSession.score := score;
       GuesserSession.difficulty := GuesserSession.difficulty session;
       GuesserSession.seed := GuesserSession.seed session |} st'.

Definition doNext (st : state) : state :=
  setRound
    (makeRound (GuesserSession.difficulty (session st))
               (GuesserRound.seed (round st))) st.

(** The button's [onClick]. *)
Definition onClick (st : state) : state :=
  if GuesserRound.checking (round st) then doNext st else doCheck st.

(** What the player can do: move a slider, press the button; [Check]
    and [Next] call the two handlers whatever the round's phase. *)
Inductive event : Type :=
| MoveHue (x : JS.number)
| MoveSat (x : JS.number)
| MoveVal (x : JS.number)
| Check
| Next
| Click.

Definition step (st : state) (ev : event) : state :=
  match ev with
  | MoveHue x => setHue x st
  | MoveSat x => setSat x st
  | MoveVal x => setVal x st
  | Check => doCheck st
  | Next => doNext st
  | Click => onClick st
  end.

Definition run (st : state) (evs : list event) : state :=
  fold_left step evs st.

(** The states the component can be in. *)
Inductive reachable : state -> Prop :=
| reachable_init (now : Z) : reachable (init now)
| reachable_step (st : state) (ev : event) :
    reachable st -> reachable (step st ev).

End App.

(** ** The specification's wording of the stepper and of the Hard
       derivation

    These two definitions follow the words of the specification, not the
    source; they are compared with [next] and [makeHSVHard] below. *)

Module Spec.

(** "multiply the seed by 65521, XOR with the twist constant selected
    by [seed & 0x3], mask the final result to 16 bits". *)
Definition next (seed : Z) : Z :=
  Z.land (Z.lxor (seed * 65521) (TWIST_at (Z.land seed 0x3))) 0xffff.

(** "hue field = bits 8-14 (mask 0x7F00, shift 8), saturation field =
    bits 4-7 (mask 0xF0, shift 4), value field = bits 0-3 (mask 0xF);
    output order (hue, value, saturation)". *)
Definition makeHSVHard (seed : Z) : triple :=
  let hueField := Z.shiftr (Z.land seed 0x7f00) 8 in
  let satField := Z.shiftr (Z.land seed 0xf0) 4 in
  let valField := Z.land seed 0xf in
  let hue := (((#360 / #64) * #hueField) mod #360)%js in
  let sat := ((#100 / #16) * #satField)%js in
  let val := ((#100 / #16) * #valField)%js in
  (hue, val, sat).

End Spec.

(** ** Ranges of colour components *)

Definition hue_ok (h : JS.number) : Prop :=
  JS.leb #0%js h = true /\ JS.ltb h #360%js = true.

Definition percent_ok (x : JS.number) : Prop :=
  JS.leb #0%js x = true /\ JS.leb x #100%js = true.

Definition triple_okb (c : triple) : bool :=
  let '(h, x, y) := c in
  JS.leb #0%js h && JS.ltb h #360%js
  && (JS.leb #0%js x && JS.leb x #100%js)
  && (JS.leb #0%js y && JS.leb y #100%js).

Definition is_seed16 (s : Z) : Prop := 0 <= s <= 65535.

(** [P] holds of 0, 1, ..., n-1. *)
Definition all_below (n : nat) (P : Z -> bool) : bool :=
  forallb P (map Z.of_nat (seq 0 n)).

(** ** The exact value of a Number *)

(** The rational a finite Number stands for; [None] for NaN and the
    infinities. *)
Definition exact_value (x : JS.number) : option Q :=
  match x with
  | S754_zero _ => Some 0%Q
  | S754_finite s m e =>
      Some (inject_Z (cond_Zopp s (Zpos m)) * Qpower 2 e)%Q
  | _ => None
  end.

(** [x] is finite and its value is the rational [q]. *)
Definition has_value (x : JS.number) (q : Q) : Prop :=
  match exact_value x with
  | Some v => (v == q)%Q
  | None => False
  end.

Definition has_valueb (x : JS.number) (q : Q) : bool :=
  match exact_value x with
  | Some v => Qeq_bool v q
  | None => false
  end.

(** [x] is finite and within [eps] of [q]. *)
Definition near_valueb (x : JS.number) (q eps : Q) : bool :=
  match exact_value x with
  | Some v => Qle_bool (Qabs (v - q)) eps
  | None => false
  end.

(** The low bytes at which the Easy hue carries a rounding error. *)
Definition easy_inexact : list Z :=
  [25; 49; 50; 97; 98; 100; 101; 193; 194; 196; 197; 199; 200; 202; 203].

Definition Z_mem (k : Z) (l : list Z) : bool := existsb (Z.eqb k) l.

(** Structural equality of Numbers. *)
Definition number_eqb (x y : JS.number) : bool :=
  match x, y with
  | S754_zero a, S754_zero b => Bool.eqb a b
  | S754_infinity a, S754_infinity b => Bool.eqb a b
  | S754_nan, S754_nan => true
  | S754_finite a m e, S754_finite b m' e' =>
      Bool.eqb a b && Pos.eqb m m' && Z.eqb e e'
  | _, _ => false
  end.

Definition triple_eqb (c c' : triple) : bool :=
  let '(h, x, y) := c in
  let '(h', x', y') := c' in
  number_eqb h h' && number_eqb x x' && number_eqb y y'.

(** The bound taken for the rounding error of the Easy hue: 2^-40. *)
Definition easy_eps : Q := Qmake 1 (2 ^ 40).

(** What is checked of the colours at a low byte [k]. *)
Definition easy_checkb (k : Z) : bool :=
  let '(h, x, y) := makeHSVEasy k in
  let q := inject_Z ((10 * k) mod 360) in
  (if Z_mem k easy_inexact then negb (has_valueb h q) else has_valueb h q)
  && near_valueb h q easy_eps
  && JS.ltb h #360%js.

Definition medium_checkb (k : Z) : bool :=
  let '(h, x, y) := makeHSVMedium k in
  has_valueb h (Qmake (45 * k) 32).

Definition hard_checkb (k : Z) : bool :=
  let '(h, x, y) := makeHSVHard k in
  has_valueb h (Qmake (45 * (k mod 64)) 8)
  && triple_eqb (makeHSVHard k) (makeHSVHard (k mod 64)).

Definition percent_checkb (d : GuesserDifficulty) (k : Z) : bool :=
  let '(h, x, y) := makeHSV d k in
  has_valueb x (Qmake (25 * (k mod 16)) 4)
  && has_valueb y (Qmake (25 * (k mod 16)) 4).

(** ** The debug table *)

(** A row of the table: its key and its four cells. *)
Record debug_row : Type := Build_debug_row
  { row_key : Z;
    row_seed : Z;
    row_h : JS.number;
    row_s : JS.number;
    row_v : JS.number }.

(** One turn of the [for] loop on the pair of the array and the running
    seed. *)
Definition debug_body (difficulty : GuesserDifficulty)
  (acc : list debug_row * Z) (i : nat) : list debug_row * Z :=
  let '(debug, seed) := acc in
  let '(h, s, v) := makeHSV difficulty seed in
  (debug ++ [Build_debug_row (Z.of_nat i) seed h s v], next seed).

(** The [useMemo] of the component: ten rows, from the round's seed. *)
Definition debug (st : App.state) : list debug_row :=
  fst (fold_left
         (debug_body (GuesserSession.difficulty (App.session st)))
         (seq 0 10)
         ([], GuesserRound.seed (App.round st))).

(** The cells of a row, without its key. *)
Definition row_cells (r : debug_row) : Z * triple :=
  (row_seed r, (row_h r, row_s r, row_v r)).

(** The colour a round shows. *)
Definition round_colour (r : GuesserRound.t) : triple :=
  (GuesserRound.hue r, GuesserRound.saturation r, GuesserRound.value r).

(** Whether a guess equal to the colour [c] passes the test of [doCheck]
    against the colour [c']. *)
Definition colour_matchb (c c' : triple) : bool :=
  let '(h, x, y) := c in
  let '(h', x', y') := c' in
  ((h === h') && (x === x') && (y === y'))%js.

(** The colour at the byte [k] matches neither the colour one step later
    (either way round) nor the colour two steps later. *)
Definition fresh_checkb (d : GuesserDifficulty) (k : Z) : bool :=
  negb (colour_matchb (makeHSV d (next k)) (makeHSV d k))
  && negb (colour_matchb (makeHSV d k) (makeHSV d (next k)))
  && negb (colour_matchb (makeHSV d (next (next k))) (makeHSV d k)).

(** Whether a check with the sliders left at 0 scores against the Easy
    colour of the byte [k], and whether [k] is 0 or 144. *)
Definition untouched_checkb (k : Z) : bool :=
  Bool.eqb (colour_matchb (#0, #0, #0)%js (makeHSVEasy k))
           ((k =? 0) || (k =? 144)).

(** ** What the page lets the player do *)

(** The page has three sliders and one button: [doCheck] and [doNext]
    are only called through [onClick]. *)
Definition ui_event (ev : App.event) : bool :=
  match ev with
  | App.Check | App.Next => false
  | _ => true
  end.

Definition is_click (ev : App.event) : bool :=
  match ev with
  | App.Click => true
  | _ => false
  end.

(** The number of presses of the button. *)
Definition clicks (evs : list App.event) : nat :=
  length (filter is_click evs).

(** * Properties *)

(** ** 32-bit integers and masks *)

Section Int32.

Lemma toInt32_range (z : Z) : - 2 ^ 31 <= JS.toInt32 z < 2 ^ 31.
Proof.
  unfold JS.toInt32.
  pose proof (Z.mod_pos_bound (z + 2 ^ 31) (2 ^ 32) eq_refl). lia.
Qed.

Lemma toInt32_small (z : Z) : - 2 ^ 31 <= z < 2 ^ 31 -> JS.toInt32 z = z.
Proof.
  intros H. unfold JS.toInt32. rewrite Z.mod_small; lia.
Qed.

(** Reducing to 32 bits does not change the residue modulo a divisor
    of 2^31. *)
Lemma toInt32_mod (z k : Z) :
  0 < k -> (2 ^ 31) mod k = 0 -> JS.toInt32 z mod k = z mod k.
Proof.
  intros Hk Hdiv.
  apply Z.mod_divide in Hdiv; [|lia]. destruct Hdiv as [c Hc].
  unfold JS.toInt32.
  rewrite (Z.mod_eq (z + 2 ^ 31) (2 ^ 32)) by lia.
  replace (z + 2 ^ 31 - 2 ^ 32 * ((z + 2 ^ 31) / 2 ^ 32) - 2 ^ 31)
    with (z + (- (2 * c * ((z + 2 ^ 31) / 2 ^ 32))) * k).
  - apply Z.mod_add. lia.
  - change (2 ^ 32) with (2 * 2 ^ 31). rewrite Hc. ring.
Qed.

(** [z & (2^n - 1)] keeps the [n] low bits of [z]. *)
Lemma band_ones (z n : Z) :
  0 <= n <= 31 -> JS.band z (Z.ones n) = z mod 2 ^ n.
Proof.
  intros Hn. unfold JS.band.
  assert (Hlt : 2 ^ n <= 2 ^ 31) by (apply Z.pow_le_mono_r; lia).
  assert (Hpos : 0 < 2 ^ n) by (apply Z.pow_pos_nonneg; lia).
  rewrite (toInt32_small (Z.ones n)).
  - rewrite Z.land_ones by lia. apply toInt32_mod; [lia|].
    replace 31 with ((31 - n) + n) by ring.
    rewrite Z.pow_add_r by lia. apply Z.mod_mul. lia.
  - rewrite Z.ones_equiv. lia.
Qed.

Lemma band_nibble (z : Z) : JS.band z 0xf = z mod 16.
Proof. exact (band_ones z 4 ltac:(lia)). Qed.

Lemma band_byte (z : Z) : JS.band z 0xff = z mod 256.
Proof. exact (band_ones z 8 ltac:(lia)). Qed.

Lemma band_7bits (z : Z) : JS.band z 0x7f = z mod 128.
Proof. exact (band_ones z 7 ltac:(lia)). Qed.

Lemma band_2bits (z : Z) : JS.band z 0x3 = z mod 4.
Proof. exact (band_ones z 2 ltac:(lia)). Qed.

(** The masks of the derivation, as the source's [mask >> shift]
    evaluates them. *)
Lemma mask_ff00 : JS.sar 0xff00 8 = 0xff.
Proof. reflexivity. Qed.

Lemma mask_7f00 : JS.sar 0x7f00 8 = 0x7f.
Proof. reflexivity. Qed.

Lemma mask_f0 : JS.sar 0xf0 4 = 0xf.
Proof. reflexivity. Qed.

End Int32.

(** ** The colour derivation *)

Section Colours.

Lemma all_below_spec (n : nat) (P : Z -> bool) :
  all_below n P = true -> forall k, 0 <= k < Z.of_nat n -> P k = true.
Proof.
  unfold all_below. rewrite forallb_forall. intros H k Hk.
  apply H, in_map_iff. exists (Z.to_nat k). split.
  - apply Z2Nat.id. lia.
  - apply in_seq. lia.
Qed.

Lemma mod_256_mod (s k : Z) :
  0 < k -> (k | 256) -> (s mod 256) mod k = s mod k.
Proof.
  intros Hk Hd. apply Z.mod_mod_divide. exact Hd.
Qed.

(** What the three derivations compute, with the masks evaluated: each
    reads the low bits of the seed only. *)
Lemma makeHSVEasy_eq (s : Z) :
  makeHSVEasy s =
    ((((#360 / #6) * (#(s mod 256) / #6)) mod #360)%js,
     ((#100 / #4) * (#(s mod 16) / #4))%js,
     ((#100 / #4) * (#(s mod 16) / #4))%js).
Proof.
  unfold makeHSVEasy. cbv zeta.
  rewrite mask_ff00, mask_f0, band_byte, band_nibble. reflexivity.
Qed.

Lemma makeHSVMedium_eq (s : Z) :
  makeHSVMedium s =
    (((((#360 / #16) * #(s mod 256)) / #16) mod #360)%js,
     ((#100 / #8) * (#(s mod 16) / #2))%js,
     ((#100 / #8) * (#(s mod 16) / #2))%js).
Proof.
  unfold makeHSVMedium. cbv zeta.
  rewrite mask_ff00, mask_f0, band_byte, band_nibble. reflexivity.
Qed.

Lemma makeHSVHard_eq (s : Z) :
  makeHSVHard s =
    ((((#360 / #64) * #(s mod 128)) mod #360)%js,
     ((#100 / #16) * #(s mod 16))%js,
     ((#100 / #16) * #(s mod 16))%js).
Proof.
  unfold makeHSVHard. cbv zeta.
  rewrite mask_7f00, mask_f0, band_7bits, band_nibble. reflexivity.
Qed.

Lemma makeHSV_low_byte (d : GuesserDifficulty) (s : Z) :
  makeHSV d s = makeHSV d (s mod 256).
Proof.
  destruct d; simpl.
  - rewrite !makeHSVEasy_eq, Z.mod_mod, mod_256_mod; try lia; [reflexivity|].
    exists 16; reflexivity.
  - rewrite !makeHSVMedium_eq, Z.mod_mod, mod_256_mod; try lia; [reflexivity|].
    exists 16; reflexivity.
  - rewrite !makeHSVHard_eq, !mod_256_mod; try lia; [reflexivity| |].
    + exists 16; reflexivity.
    + exists 2; reflexivity.
Qed.

(** The 256 low bytes, checked one by one. *)
Lemma makeHSV_okb_byte (d : GuesserDifficulty) :
  all_below 256 (fun k => triple_okb (makeHSV d k)) = true.
Proof. destruct d; vm_compute; reflexivity. Qed.

Lemma makeHSV_okb (d : GuesserDifficulty) (s : Z) :
  triple_okb (makeHSV d s) = true.
Proof.
  rewrite makeHSV_low_byte.
  apply (all_below_spec 256 (fun k => triple_okb (makeHSV d k))).
  - apply makeHSV_okb_byte.
  - apply Z.mod_pos_bound. reflexivity.
Qed.

Lemma triple_okb_true (h x y : JS.number) :
  triple_okb (h, x, y) = true -> hue_ok h /\ percent_ok x /\ percent_ok y.
Proof.
  unfold triple_okb, hue_ok, percent_ok.
  rewrite !andb_true_iff. tauto.
Qed.

(** For every seed the second and third components are the same
    expression of the low nibble. *)
Lemma makeHSV_val_sat (d : GuesserDifficulty) (s : Z) :
  snd (fst (makeHSV d s)) = snd (makeHSV d s).
Proof.
  destruct d; unfold makeHSV.
  - rewrite makeHSVEasy_eq. reflexivity.
  - rewrite makeHSVMedium_eq. reflexivity.
  - rewrite makeHSVHard_eq. reflexivity.
Qed.

Lemma makeRound_fields (d : GuesserDifficulty) (s : Z) :
  (GuesserRound.hue (makeRound d s),
   GuesserRound.saturation (makeRound d s),
   GuesserRound.value (makeRound d s)) = makeHSV d s
  /\ GuesserRound.seed (makeRound d s) = next s
  /\ GuesserRound.checking (makeRound d s) = false.
Proof.
  unfold makeRound. destruct (makeHSV d s) as [[h x] y]. simpl. auto.
Qed.

End Colours.

(** ** The seed stepper *)

Section Stepper.

Lemma land_low16_toInt32 (z : Z) :
  Z.land (JS.toInt32 z) 0xffff = Z.land z 0xffff.
Proof.
  change 0xffff with (Z.ones 16). rewrite !Z.land_ones by lia.
  apply toInt32_mod; reflexivity.
Qed.

Lemma land_lxor_distr (a b c : Z) :
  Z.land (Z.lxor a b) c = Z.lxor (Z.land a c) (Z.land b c).
Proof.
  apply Z.bits_inj'. intros n _.
  rewrite Z.land_spec, !Z.lxor_spec, !Z.land_spec.
  destruct (Z.testbit a n), (Z.testbit b n), (Z.testbit c n); reflexivity.
Qed.

Lemma int32_shiftr (x : Z) :
  - 2 ^ 31 <= x < 2 ^ 31 <-> Z.shiftr x 31 = 0 \/ Z.shiftr x 31 = -1.
Proof.
  rewrite Z.shiftr_div_pow2 by lia.
  pose proof (Z.div_mod x (2 ^ 31) ltac:(lia)) as Hdm.
  pose proof (Z.mod_pos_bound x (2 ^ 31) eq_refl) as Hm.
  revert Hdm Hm. generalize (x / 2 ^ 31) (x mod 2 ^ 31). intros q r Hdm Hm.
  lia.
Qed.

(** The result of [next] is a 32-bit signed integer. *)
Lemma next_int32 (s : Z) : - 2 ^ 31 <= next s < 2 ^ 31.
Proof.
  unfold next, JS.bxor.
  apply int32_shiftr. rewrite Z.shiftr_lxor.
  destruct (proj1 (int32_shiftr _) (toInt32_range (s * 65521))) as [-> | ->];
    destruct (proj1 (int32_shiftr _)
                (toInt32_range (TWIST_at (JS.band s 3)))) as [-> | ->];
    simpl; auto.
Qed.

(** [next] and the specification's stepper agree on the 16 low bits:
    the source computes the specified value and leaves the final mask
    out. *)
Lemma next_low16 (s : Z) : Z.land (next s) 0xffff = Spec.next s.
Proof.
  unfold next, Spec.next, JS.bxor.
  rewrite band_2bits.
  change 3 with (Z.ones 2). rewrite (Z.land_ones s 2) by lia.
  rewrite !land_lxor_distr, !land_low16_toInt32. reflexivity.
Qed.

End Stepper.

(** ** Sessions *)

Section Sessions.

(** The two counters of a state. *)
Let guessed (st : App.state) : Z := GuesserSession.guessed (App.session st).
Let score (st : App.state) : Z := GuesserSession.score (App.session st).

Lemma run_snoc (st : App.state) (evs : list App.event) (ev : App.event) :
  App.run st (evs ++ [ev]) = App.step (App.run st evs) ev.
Proof. unfold App.run. rewrite fold_left_app. reflexivity. Qed.

Lemma run_reachable (now : Z) (evs : list App.event) :
  App.reachable (App.run (App.init now) evs).
Proof.
  induction evs as [| ev evs IH] using rev_ind.
  - apply App.reachable_init.
  - rewrite run_snoc. apply App.reachable_step, IH.
Qed.

Lemma reachable_run (st : App.state) :
  App.reachable st -> exists now evs, st = App.run (App.init now) evs.
Proof.
  induction 1 as [now | st ev _ (now & evs & ->)].
  - exists now, []. reflexivity.
  - exists now, (evs ++ [ev]). rewrite run_snoc. reflexivity.
Qed.

(** One event moves each counter by 0 or 1, and the score only when the
    guess count moves. *)
Lemma step_counters (st : App.state) (ev : App.event) :
  guessed st <= guessed (App.step st ev) <= guessed st + 1
  /\ score st <= score (App.step st ev) <= score st + 1
  /\ score (App.step st ev) - score st
     <= guessed (App.step st ev) - guessed st.
Proof.
  unfold guessed, score.
  destruct ev; simpl; try lia.
  - destruct (_ && _); lia.
  - unfold App.onClick. destruct (GuesserRound.checking _); simpl; [lia|].
    destruct (_ && _); lia.
Qed.

Lemma reachable_counters (st : App.state) :
  App.reachable st -> 0 <= score st <= guessed st.
Proof.
  induction 1 as [now | st ev _ IH].
  - unfold score, guessed. simpl. lia.
  - pose proof (step_counters st ev). lia.
Qed.

(** The seeds of a reachable state are 32-bit signed integers, so the
    product in [next] stays below 2^53 in absolute value. *)
Lemma reachable_seed_exact (st : App.state) :
  App.reachable st ->
  0 <= GuesserSession.seed (App.session st) <= 65535
  /\ - 2 ^ 31 <= GuesserRound.seed (App.round st) < 2 ^ 31
  /\ - 2 ^ 53 < GuesserRound.seed (App.round st) * 65521 < 2 ^ 53.
Proof.
  assert (Hmk : forall d s, - 2 ^ 31 <= GuesserRound.seed (makeRound d s) < 2 ^ 31).
  { intros d s. destruct (makeRound_fields d s) as (_ & -> & _).
    apply next_int32. }
  assert (Hall : App.reachable st ->
                 0 <= GuesserSession.seed (App.session st) <= 65535
                 /\ - 2 ^ 31 <= GuesserRound.seed (App.round st) < 2 ^ 31).
  { induction 1 as [now | st ev _ [IHs IHr]].
    - split; [|apply Hmk].
      change (GuesserSession.seed (App.session (App.init now)))
        with (JS.band now (Z.ones 16)).
      rewrite band_ones by lia.
      pose proof (Z.mod_pos_bound now (2 ^ 16) eq_refl). lia.
    - destruct ev; simpl; auto.
      unfold App.onClick. destruct (GuesserRound.checking _); simpl; auto. }
  intros H. destruct (Hall H) as [Hs Hr]. repeat split; lia.
Qed.

(** The sliders and the button never make the stored saturation and
    value differ. *)
Lemma reachable_saturation_value (st : App.state) :
  App.reachable st ->
  GuesserRound.saturation (App.round st) = GuesserRound.value (App.round st).
Proof.
  assert (Hmk : forall d s, GuesserRound.saturation (makeRound d s)
                            = GuesserRound.value (makeRound d s)).
  { intros d s. pose proof (makeHSV_val_sat d s) as H.
    destruct (makeRound_fields d s) as [E _]. rewrite <- E in H. exact H. }
  induction 1 as [now | st ev _ IH].
  - apply Hmk.
  - destruct ev; simpl; trivial; try apply Hmk.
    unfold App.onClick. destruct (GuesserRound.checking _); simpl; trivial.
Qed.

End Sessions.

(** * The claims of the specification *)

(** C1 (the source departs from the claim).  [next] does not truncate its
    result to 16 bits: at the 16-bit seed 2 it returns 117083, where the
    specified stepper returns 51547, and at 65535 it returns the negative
    number -1037580, where the specified stepper returns 10996. *)
Theorem next_not_truncated :
  next 2 = 117083 /\ Spec.next 2 = 51547
  /\ next 65535 = -1037580 /\ Spec.next 65535 = 10996.
Proof. repeat split; vm_compute; reflexivity. Qed.

(** C2 (the source departs from the claim).  [makeHSVHard] shifts the
    masks, not the masked seed, so it reads the hue from bits 0-6 and both
    other components from bits 0-3: the seed 0x0100 (hue field 1) gives
    the colour (0, 0, 0), where the specified derivation gives the hue
    5.625, and the seed 0x0010 (saturation field 1) gives the hue 90 and
    saturation 0, where the specified derivation gives the hue 0 and the
    saturation 6.25. *)
Theorem makeHSVHard_reads_low_bits :
  makeHSVHard 0x0100 = (#0, #0, #0)%js
  /\ Spec.makeHSVHard 0x0100 = (JS.dyadic 45 (-3), #0, #0)%js
  /\ makeHSVHard 0x0010 = (#90, #0, #0)%js
  /\ Spec.makeHSVHard 0x0010 = (#0, #0, JS.dyadic 25 (-2))%js.
Proof. repeat split; vm_compute; reflexivity. Qed.

(** C3 (the source departs from the claim).  At the seed 0x7F0F the Hard
    derivation returns hue 84.375, value 93.75 and saturation 93.75, and
    the round made from it stores them so; the specified derivation gives
    hue 354.375, value 93.75 and saturation 0. *)
Theorem makeHSVHard_7F0F :
  makeHSVHard 0x7f0f
    = (JS.dyadic 675 (-3), JS.dyadic 375 (-2), JS.dyadic 375 (-2))
  /\ GuesserRound.hue (makeRound Hard 0x7f0f) = JS.dyadic 675 (-3)
  /\ GuesserRound.saturation (makeRound Hard 0x7f0f) = JS.dyadic 375 (-2)
  /\ GuesserRound.value (makeRound Hard 0x7f0f) = JS.dyadic 375 (-2)
  /\ Spec.makeHSVHard 0x7f0f
    = (JS.dyadic 2835 (-3), JS.dyadic 375 (-2), #0%js).
Proof. repeat split; vm_compute; reflexivity. Qed.

(** C4.  For every difficulty and every 16-bit seed, the derived hue lies
    in [0, 360) and the two other components lie in [0, 100]; the same
    holds of the fields of the round made from the seed. *)
Theorem makeHSV_in_range (d : GuesserDifficulty) (s : Z) :
  is_seed16 s ->
  (let '(h, x, y) := makeHSV d s in
   hue_ok h /\ percent_ok x /\ percent_ok y)
  /\ hue_ok (GuesserRound.hue (makeRound d s))
  /\ percent_ok (GuesserRound.saturation (makeRound d s))
  /\ percent_ok (GuesserRound.value (makeRound d s)).
Proof.
  intros _.
  pose proof (makeHSV_okb d s) as Hok.
  destruct (makeRound_fields d s) as [E _].
  destruct (makeHSV d s) as [[h x] y].
  apply triple_okb_true in Hok.
  injection E as -> -> ->. tauto.
Qed.

Lemma makeHSV_in_range_witness :
  is_seed16 0xffff
  /\ (let '(h, x, y) := makeHSV Easy 0xffff in
      hue_ok h /\ percent_ok x /\ percent_ok y)
  /\ hue_ok (GuesserRound.hue (makeRound Easy 0xffff))
  /\ percent_ok (GuesserRound.saturation (makeRound Easy 0xffff))
  /\ percent_ok (GuesserRound.value (makeRound Easy 0xffff)).
Proof.
  split.
  - unfold is_seed16. lia.
  - apply (makeHSV_in_range Easy 0xffff). unfold is_seed16. lia.
Defined.

(** C5.  In every state reached from the initial session (guessed = 0,
    score = 0) by any sequence of checks, advances, clicks and slider
    moves, 0 <= score <= guessed, and the next operation, whichever it is,
    raises each counter by 0 or 1 and lowers neither. *)
Theorem session_counters (now : Z) (evs : list App.event) (ev : App.event) :
  let st := App.run (App.init now) evs in
  let st' := App.step st ev in
  GuesserSession.guessed (App.session (App.init now)) = 0
  /\ GuesserSession.score (App.session (App.init now)) = 0
  /\ 0 <= GuesserSession.score (App.session st)
       <= GuesserSession.guessed (App.session st)
  /\ GuesserSession.guessed (App.session st)
       <= GuesserSession.guessed (App.session st')
       <= GuesserSession.guessed (App.session st) + 1
  /\ GuesserSession.score (App.session st)
       <= GuesserSession.score (App.session st')
       <= GuesserSession.score (App.session st) + 1.
Proof.
  intros st st'.
  pose proof (reachable_counters st (run_reachable now evs)) as Hinv.
  pose proof (step_counters st ev) as Hstep.
  fold st' in Hstep. simpl in *. repeat split; try reflexivity; lia.
Qed.

(** C6.  [doCheck] raises the guess count by exactly 1; it raises the
    score by exactly 1 if and only if the guessed hue, saturation and
    value are each [===] to the round's hue, saturation and value, and
    leaves the score as it is otherwise. *)
Theorem doCheck_scores (st : App.state) :
  let s := App.session st in
  let r := App.round st in
  let s' := App.session (App.doCheck st) in
  let hit :=
    (App.hue st === GuesserRound.hue r)%js = true
    /\ (App.sat st === GuesserRound.saturation r)%js = true
    /\ (App.val st === GuesserRound.value r)%js = true in
  GuesserSession.guessed s' = GuesserSession.guessed s + 1
  /\ (GuesserSession.score s' = GuesserSession.score s + 1 <-> hit)
  /\ (GuesserSession.score s' = GuesserSession.score s <-> ~ hit).
Proof.
  simpl.
  destruct (App.hue st === _)%js, (App.sat st === _)%js,
    (App.val st === _)%js; simpl;
    (split; [reflexivity|]); split; split; intros H;
    try lia; try tauto;
    try (intros (? & ? & ?); discriminate);
    try (destruct H as (? & ? & ?); discriminate).
Qed.

(** C7.  [doCheck] sets the round's checking flag and leaves its hue,
    saturation, value and carried seed as they were. *)
Theorem doCheck_round_frame (st : App.state) :
  let r := App.round st in
  let r' := App.round (App.doCheck st) in
  GuesserRound.checking r' = true
  /\ GuesserRound.hue r' = GuesserRound.hue r
  /\ GuesserRound.saturation r' = GuesserRound.saturation r
  /\ GuesserRound.value r' = GuesserRound.value r
  /\ GuesserRound.seed r' = GuesserRound.seed r.
Proof. simpl. repeat split. Qed.

(** C8.  For every difficulty [d] and 16-bit seed [s], [makeRound d s] has
    the components of [makeHSV d s] as its colour (in the order they are
    returned, and also with the component the derivation calls [sat] as
    saturation and the one it calls [val] as value), [next s] as carried
    seed and a false checking flag; and [doNext] on a round with carried
    seed [c] installs a round whose colour is that of
    [makeHSV (session difficulty) c]. *)
Theorem makeRound_target (d : GuesserDifficulty) (s : Z) (st : App.state) :
  is_seed16 s ->
  let r := makeRound d s in
  let c := GuesserRound.seed (App.round st) in
  let r' := App.round (App.doNext st) in
  (GuesserRound.hue r, GuesserRound.saturation r, GuesserRound.value r)
    = makeHSV d s
  /\ (GuesserRound.hue r, GuesserRound.value r, GuesserRound.saturation r)
    = makeHSV d s
  /\ GuesserRound.seed r = next s
  /\ GuesserRound.checking r = false
  /\ (GuesserRound.hue r', GuesserRound.saturation r', GuesserRound.value r')
    = makeHSV (GuesserSession.difficulty (App.session st)) c.
Proof.
  intros _ r c r'.
  destruct (makeRound_fields d s) as (E & Hseed & Hchk). fold r in E, Hseed, Hchk.
  repeat split; trivial.
  - pose proof (makeHSV_val_sat d s) as Hvs. rewrite <- E in *. simpl in Hvs.
    rewrite Hvs. reflexivity.
  - apply makeRound_fields.
Qed.

Lemma makeRound_target_witness :
  is_seed16 0x7f0f
  /\ (let r := makeRound Hard 0x7f0f in
      let c := GuesserRound.seed (App.round (App.init 0)) in
      let r' := App.round (App.doNext (App.init 0)) in
      (GuesserRound.hue r, GuesserRound.saturation r, GuesserRound.value r)
        = makeHSV Hard 0x7f0f
      /\ (GuesserRound.hue r, GuesserRound.value r, GuesserRound.saturation r)
        = makeHSV Hard 0x7f0f
      /\ GuesserRound.seed r = next 0x7f0f
      /\ GuesserRound.checking r = false
      /\ (GuesserRound.hue r', GuesserRound.saturation r',
          GuesserRound.value r')
        = makeHSV (GuesserSession.difficulty (App.session (App.init 0))) c).
Proof.
  split.
  - unfold is_seed16. lia.
  - apply (makeRound_target Hard 0x7f0f (App.init 0)). unfold is_seed16. lia.
Defined.

(** C9.  [doNext] leaves the session (seed, difficulty, guess count and
    score) as it was and replaces the round by the one made from the old
    round's carried seed. *)
Theorem doNext_session_frame (st : App.state) :
  let s := App.session st in
  let s' := App.session (App.doNext st) in
  s' = s
  /\ GuesserSession.seed s' = GuesserSession.seed s
  /\ GuesserSession.difficulty s' = GuesserSession.difficulty s
  /\ GuesserSession.guessed s' = GuesserSession.guessed s
  /\ GuesserSession.score s' = GuesserSession.score s
  /\ App.round (App.doNext st)
     = makeRound (GuesserSession.difficulty s) (GuesserRound.seed (App.round st)).
Proof. simpl. repeat split. Qed.

(** C10.  For every difficulty and every 16-bit seed, the second and the
    third component of [makeHSV d s] are equal, and so are the saturation
    and the value of the round made from it. *)
Theorem makeHSV_saturation_eq_value (d : GuesserDifficulty) (s : Z) :
  is_seed16 s ->
  (let '(_, x, y) := makeHSV d s in x = y)
  /\ GuesserRound.saturation (makeRound d s)
     = GuesserRound.value (makeRound d s).
Proof.
  intros _.
  pose proof (makeHSV_val_sat d s) as H.
  destruct (makeRound_fields d s) as [E _].
  destruct (makeHSV d s) as [[h x] y].
  injection E as _ -> ->. simpl in H. auto.
Qed.

Lemma makeHSV_saturation_eq_value_witness :
  is_seed16 0x1234
  /\ (let '(_, x, y) := makeHSV Medium 0x1234 in x = y)
  /\ GuesserRound.saturation (makeRound Medium 0x1234)
     = GuesserRound.value (makeRound Medium 0x1234).
Proof.
  split.
  - unfold is_seed16. lia.
  - apply (makeHSV_saturation_eq_value Medium 0x1234). unfold is_seed16. lia.
Defined.

(** * Further properties of the source *)

(** ** The stepper on the low bits *)

Section LowBits.

Lemma pow2_divides (n m : Z) : 0 <= n <= m -> (2 ^ m) mod 2 ^ n = 0.
Proof.
  intros H. replace m with ((m - n) + n) by ring.
  rewrite Z.pow_add_r by lia. apply Z.mod_mul.
  apply Z.pow_nonzero; lia.
Qed.

Lemma toInt32_mod_pow2 (z n : Z) :
  0 <= n <= 31 -> JS.toInt32 z mod 2 ^ n = z mod 2 ^ n.
Proof.
  intros H. apply toInt32_mod.
  - apply Z.pow_pos_nonneg; lia.
  - apply pow2_divides. lia.
Qed.

(** The [n] low bits of [next s], for [n] up to 31. *)
Lemma next_mod_pow2 (s n : Z) :
  0 <= n <= 31 ->
  next s mod 2 ^ n
  = Z.lxor ((s * 65521) mod 2 ^ n) (TWIST_at (s mod 4) mod 2 ^ n).
Proof.
  intros H. unfold next, JS.bxor.
  rewrite band_2bits.
  rewrite <- !Z.land_ones by lia.
  rewrite land_lxor_distr.
  rewrite !Z.land_ones by lia.
  rewrite !toInt32_mod_pow2 by lia. reflexivity.
Qed.

Lemma next_low_bits_eq (s n : Z) :
  2 <= n <= 31 -> next s mod 2 ^ n = next (s mod 2 ^ n) mod 2 ^ n.
Proof.
  intros H. rewrite !next_mod_pow2 by lia.
  rewrite Z.mul_mod_idemp_l by (apply Z.pow_nonzero; lia).
  replace ((s mod 2 ^ n) mod 4) with (s mod 4); [reflexivity|].
  symmetry. apply Z.mod_mod_divide.
  exists (2 ^ (n - 2)). change 4 with (2 ^ 2).
  rewrite <- Z.pow_add_r by lia. f_equal. ring.
Qed.

Lemma next_byte (s : Z) : next s mod 256 = next (s mod 256) mod 256.
Proof. exact (next_low_bits_eq s 8 ltac:(lia)). Qed.


Lemma iter_next_byte (n : nat) (s : Z) :
  Nat.iter n next s mod 256 = Nat.iter n next (s mod 256) mod 256.
Proof.
  induction n as [| n IH].
  - simpl. rewrite Z.mod_mod by lia. reflexivity.
  - rewrite !Nat.iter_succ.
    rewrite (next_byte (Nat.iter n next s)).
    rewrite (next_byte (Nat.iter n next (s mod 256))).
    rewrite IH. reflexivity.
Qed.

Lemma iter_next_byte_congr (n : nat) (s s' : Z) :
  s mod 256 = s' mod 256 ->
  Nat.iter n next s mod 256 = Nat.iter n next s' mod 256.
Proof.
  intros H. rewrite (iter_next_byte n s), (iter_next_byte n s'), H.
  reflexivity.
Qed.

(** On the 256 low bytes, six steps land where two steps do. *)
Lemma byte_cycle_check :
  all_below 256
    (fun b => Nat.iter 6 next b mod 256 =? Nat.iter 2 next b mod 256) = true.
Proof. vm_compute. reflexivity. Qed.

Lemma iter_next_period_byte (n : nat) (s : Z) :
  (2 <= n)%nat ->
  Nat.iter (n + 4) next s mod 256 = Nat.iter n next s mod 256.
Proof.
  intros H.
  replace n with ((n - 2) + 2)%nat by lia.
  generalize (n - 2)%nat as m. clear n H. intros m.
  replace (m + 2 + 4)%nat with (m + 6)%nat by lia.
  rewrite !Nat.iter_add.
  apply iter_next_byte_congr.
  rewrite (iter_next_byte 6 s), (iter_next_byte 2 s).
  apply Z.eqb_eq.
  apply (all_below_spec 256
           (fun b => Nat.iter 6 next b mod 256 =? Nat.iter 2 next b mod 256)).
  - exact byte_cycle_check.
  - apply Z.mod_pos_bound. reflexivity.
Qed.


End LowBits.

(** ** The colours in closed form *)

Section ClosedForms.

Lemma number_eqb_eq (x y : JS.number) : number_eqb x y = true -> x = y.
Proof.
  destruct x as [a | a | | a m e], y as [b | b | | b m' e']; simpl;
    try discriminate; trivial.
  - intros H. apply Bool.eqb_prop in H. congruence.
  - intros H. apply Bool.eqb_prop in H. congruence.
  - rewrite !andb_true_iff. intros [[Ha Hm] He].
    apply Bool.eqb_prop in Ha. apply Pos.eqb_eq in Hm. apply Z.eqb_eq in He.
    congruence.
Qed.

Lemma triple_eqb_eq (c c' : triple) : triple_eqb c c' = true -> c = c'.
Proof.
  destruct c as [[h x] y], c' as [[h' x'] y']. simpl.
  rewrite !andb_true_iff. intros [[Hh Hx] Hy].
  apply number_eqb_eq in Hh, Hx, Hy. congruence.
Qed.

Lemma has_valueb_iff (x : JS.number) (q : Q) :
  has_valueb x q = true <-> has_value x q.
Proof.
  unfold has_valueb, has_value. destruct (exact_value x) as [v |].
  - apply Qeq_bool_iff.
  - split; [discriminate | contradiction].
Qed.

Lemma Z_mem_iff (k : Z) (l : list Z) : Z_mem k l = true <-> In k l.
Proof.
  unfold Z_mem. rewrite existsb_exists. split.
  - intros (x & Hx & E). apply Z.eqb_eq in E. subst. exact Hx.
  - intros H. exists k. split; [exact H | apply Z.eqb_refl].
Qed.

(** A property checked at the 256 bytes holds at the low byte of every
    seed. *)
Lemma at_low_byte (P : Z -> bool) (s : Z) :
  all_below 256 P = true -> P (s mod 256) = true.
Proof.
  intros H. apply (all_below_spec 256 P H).
  apply Z.mod_pos_bound. reflexivity.
Qed.

Lemma easy_check : all_below 256 easy_checkb = true.
Proof. vm_compute. reflexivity. Qed.

Lemma medium_check : all_below 256 medium_checkb = true.
Proof. vm_compute. reflexivity. Qed.

Lemma hard_check : all_below 256 hard_checkb = true.
Proof. vm_compute. reflexivity. Qed.

Lemma percent_check (d : GuesserDifficulty) :
  all_below 256 (percent_checkb d) = true.
Proof. destruct d; vm_compute; reflexivity. Qed.

End ClosedForms.

(** ** Rounds, advances and the debug table *)

Section Rounds.

Lemma makeRound_colour (d : GuesserDifficulty) (s : Z) :
  round_colour (makeRound d s) = makeHSV d s.
Proof. unfold round_colour. apply makeRound_fields. Qed.

Lemma makeRound_seed (d : GuesserDifficulty) (s : Z) :
  GuesserRound.seed (makeRound d s) = next s.
Proof. apply makeRound_fields. Qed.

Lemma makeRound_checking (d : GuesserDifficulty) (s : Z) :
  GuesserRound.checking (makeRound d s) = false.
Proof. apply makeRound_fields. Qed.

Lemma iter_doNext_session (k : nat) (st : App.state) :
  App.session (Nat.iter k App.doNext st) = App.session st.
Proof.
  induction k as [| k IH]; [reflexivity|].
  rewrite Nat.iter_succ. simpl. exact IH.
Qed.

Lemma iter_doNext_seed (k : nat) (st : App.state) :
  GuesserRound.seed (App.round (Nat.iter k App.doNext st))
  = Nat.iter k next (GuesserRound.seed (App.round st)).
Proof.
  induction k as [| k IH]; [reflexivity|].
  rewrite !Nat.iter_succ. simpl. rewrite makeRound_seed, IH. reflexivity.
Qed.

Lemma iter_doNext_colour (k : nat) (st : App.state) :
  round_colour (App.round (Nat.iter (S k) App.doNext st))
  = makeHSV (GuesserSession.difficulty (App.session st))
            (Nat.iter k next (GuesserRound.seed (App.round st))).
Proof.
  rewrite Nat.iter_succ. simpl.
  rewrite makeRound_colour, iter_doNext_session, iter_doNext_seed.
  reflexivity.
Qed.

(** The body of the loop, with the components of the colour spelled
    out. *)
Lemma debug_body_eq (d : GuesserDifficulty) (acc : list debug_row)
  (seed : Z) (i : nat) :
  debug_body d (acc, seed) i
  = (acc ++ [Build_debug_row (Z.of_nat i) seed
               (fst (fst (makeHSV d seed)))
               (snd (fst (makeHSV d seed)))
               (snd (makeHSV d seed))],
     next seed).
Proof.
  unfold debug_body. destruct (makeHSV d seed) as [[h x] y]. reflexivity.
Qed.

Lemma debug_fold (d : GuesserDifficulty) (n a : nat)
  (acc : list debug_row) (seed : Z) :
  fold_left (debug_body d) (seq a n) (acc, seed)
  = (acc ++ map (fun j =>
                   Build_debug_row (Z.of_nat (a + j)) (Nat.iter j next seed)
                     (fst (fst (makeHSV d (Nat.iter j next seed))))
                     (snd (fst (makeHSV d (Nat.iter j next seed))))
                     (snd (makeHSV d (Nat.iter j next seed))))
                (seq 0 n),
     Nat.iter n next seed).
Proof.
  revert a acc seed. induction n as [| n IH]; intros a acc seed.
  - simpl. rewrite app_nil_r. reflexivity.
  - cbn [seq fold_left]. rewrite debug_body_eq, IH.
    rewrite <- seq_shift. cbn [map]. rewrite map_map.
    rewrite <- app_assoc. cbn [app].
    rewrite Nat.add_0_r. f_equal.
    + f_equal. f_equal. apply map_ext. intros j.
      rewrite !Nat.iter_succ_r. f_equal. f_equal. lia.
    + rewrite Nat.iter_succ_r. reflexivity.
Qed.

Lemma debug_eq (st : App.state) :
  debug st
  = map (fun j =>
           let s := Nat.iter j next (GuesserRound.seed (App.round st)) in
           let c := makeHSV (GuesserSession.difficulty (App.session st)) s in
           Build_debug_row (Z.of_nat j) s (fst (fst c)) (snd (fst c)) (snd c))
        (seq 0 10).
Proof. unfold debug. rewrite debug_fold. reflexivity. Qed.

End Rounds.

(** ** The page *)

Section Page.

Lemma clicks_snoc (evs : list App.event) (ev : App.event) :
  clicks (evs ++ [ev]) = (clicks evs + (if is_click ev then 1 else 0))%nat.
Proof.
  unfold clicks. rewrite filter_app, length_app. simpl.
  destruct (is_click ev); reflexivity.
Qed.

Lemma div2_succ_odd (n : nat) :
  Nat.odd n = true -> Nat.div2 (S n) = S (Nat.div2 n).
Proof.
  intros H. pose proof (Nat.div2_odd n) as E. pose proof (Nat.div2_odd (S n)) as E'.
  rewrite Nat.odd_succ, <- Nat.negb_odd, H in E'. rewrite H in E.
  cbn [Nat.b2n negb] in E, E'. lia.
Qed.

Lemma div2_succ_even (n : nat) :
  Nat.odd n = false -> Nat.div2 (S n) = Nat.div2 n.
Proof.
  intros H. pose proof (Nat.div2_odd n) as E. pose proof (Nat.div2_odd (S n)) as E'.
  rewrite Nat.odd_succ, <- Nat.negb_odd, H in E'. rewrite H in E.
  cbn [Nat.b2n negb] in E, E'. lia.
Qed.

(** The seed the session starts from. *)
Lemma init_seed (now : Z) :
  GuesserSession.seed (App.session (App.init now)) = now mod 65536.
Proof.
  change (GuesserSession.seed (App.session (App.init now)))
    with (JS.band now (Z.ones 16)).
  rewrite band_ones by lia. reflexivity.
Qed.

(** No event changes the session's difficulty or seed. *)
Lemma step_session_frame (st : App.state) (ev : App.event) :
  GuesserSession.difficulty (App.session (App.step st ev))
  = GuesserSession.difficulty (App.session st)
  /\ GuesserSession.seed (App.session (App.step st ev))
     = GuesserSession.seed (App.session st).
Proof.
  destruct ev; simpl; auto.
  unfold App.onClick. destruct (GuesserRound.checking _); simpl; auto.
Qed.

(** What a press of the button does, by the phase of the round. *)
Lemma onClick_checking (st : App.state) :
  GuesserRound.checking (App.round st) = true ->
  App.onClick st = App.doNext st.
Proof. unfold App.onClick. intros ->. reflexivity. Qed.

Lemma onClick_guessing (st : App.state) :
  GuesserRound.checking (App.round st) = false ->
  App.onClick st = App.doCheck st.
Proof. unfold App.onClick. intros ->. reflexivity. Qed.

(** The state after a run of slider moves and presses of the button,
    by the number of presses. *)
Lemma ui_run (now : Z) (evs : list App.event) :
  forallb ui_event evs = true ->
  let st := App.run (App.init now) evs in
  let n := clicks evs in
  GuesserRound.checking (App.round st) = Nat.odd n
  /\ GuesserSession.guessed (App.session st) = Z.of_nat (Nat.div2 (S n))
  /\ round_colour (App.round st)
     = makeHSVEasy (Nat.iter (Nat.div2 n) next (now mod 65536))
  /\ GuesserRound.seed (App.round st)
     = Nat.iter (S (Nat.div2 n)) next (now mod 65536).
Proof.
  induction evs as [| ev evs IH] using rev_ind; intros Hui.
  - cbv zeta. unfold clicks. cbn [filter length Nat.odd Nat.div2 Nat.iter nat_rect App.run fold_left].
    pose proof (init_seed now) as Hs.
    unfold App.init in *. cbn [App.round App.session] in *.
    cbn [initSession GuesserSession.difficulty] in *.
    rewrite makeRound_colour, makeRound_seed, makeRound_checking.
    cbn [GuesserSession.seed GuesserSession.guessed] in *. rewrite Hs.
    repeat split.
  - rewrite forallb_app in Hui. apply andb_true_iff in Hui as [Hevs Hev].
    specialize (IH Hevs). cbv zeta in IH |- *.
    rewrite run_snoc, clicks_snoc.
    set (st := App.run (App.init now) evs) in *.
    set (n := clicks evs) in *.
    destruct IH as (Hchk & Hg & Hcol & Hseed).
    destruct ev; try discriminate; cbn [is_click App.step];
      try (rewrite Nat.add_0_r; repeat split; assumption).
    replace (n + 1)%nat with (S n) by lia.
    rewrite Nat.odd_succ, <- Nat.negb_odd.
    destruct (Nat.odd n) eqn:Hodd.
    + rewrite (onClick_checking st Hchk).
      rewrite (div2_succ_odd n Hodd).
      assert (Hd : GuesserSession.difficulty (App.session st) = Easy).
      { clear - st. subst st. induction evs as [| e l IHl] using rev_ind.
        - reflexivity.
        - rewrite run_snoc.
          rewrite (proj1 (step_session_frame _ e)). exact IHl. }
      cbn [App.doNext App.setRound App.round App.session].
      rewrite makeRound_colour, makeRound_seed, makeRound_checking, Hd, Hseed.
      cbn [negb]. repeat split; trivial.
      rewrite Hg, (div2_succ_odd n Hodd). reflexivity.
    + rewrite (onClick_guessing st Hchk).
      rewrite (div2_succ_even n Hodd).
      cbn [negb]. simpl. repeat split; trivial.
      rewrite Hg. rewrite (div2_succ_even n Hodd).
      change (Nat.div2 (S (S n))) with (S (Nat.div2 n)). lia.
Qed.

End Page.

(** * Properties of the source beyond the specification's claims *)

(** X1.  Whatever integer it is given, [next] returns a 32-bit signed
    integer. *)
Theorem next_is_int32 (s : Z) : - 2 ^ 31 <= next s < 2 ^ 31.
Proof. apply next_int32. Qed.





(** X4.  The colours along the seed sequence repeat with period 4 from
    the second step on, for every seed and every difficulty. *)
Theorem colour_period_4 (d : GuesserDifficulty) (s : Z) (n : nat) :
  (2 <= n)%nat ->
  makeHSV d (Nat.iter (n + 4) next s) = makeHSV d (Nat.iter n next s).
Proof.
  intros H.
  rewrite (makeHSV_low_byte d (Nat.iter (n + 4) next s)).
  rewrite (makeHSV_low_byte d (Nat.iter n next s)).
  rewrite (iter_next_period_byte n s H). reflexivity.
Qed.

Lemma colour_period_4_witness :
  (2 <= 2)%nat
  /\ makeHSV Easy (Nat.iter (2 + 4) next 12345)
     = makeHSV Easy (Nat.iter 2 next 12345).
Proof.
  split.
  - lia.
  - apply (colour_period_4 Easy 12345 2). lia.
Defined.

(** X5.  In any state, the round reached by [j + 4] advances shows the
    colour of the round reached by [j] advances, for [j] at least 3. *)
Theorem rounds_repeat_every_4 (st : App.state) (j : nat) :
  (3 <= j)%nat ->
  round_colour (App.round (Nat.iter (j + 4) App.doNext st))
  = round_colour (App.round (Nat.iter j App.doNext st)).
Proof.
  intros H. destruct j as [| k]; [lia|].
  change (S k + 4)%nat with (S (k + 4)).
  rewrite !iter_doNext_colour. apply colour_period_4. lia.
Qed.

Lemma rounds_repeat_every_4_witness :
  (3 <= 3)%nat
  /\ round_colour (App.round (Nat.iter (3 + 4) App.doNext (App.init 1000)))
     = round_colour (App.round (Nat.iter 3 App.doNext (App.init 1000))).
Proof.
  split.
  - lia.
  - apply (rounds_repeat_every_4 (App.init 1000) 3). lia.
Defined.

(** X6.  Two seeds with the same low byte give the same colour, in every
    difficulty: bits 8 and above are never read. *)
Theorem makeHSV_reads_low_byte (d : GuesserDifficulty) (s s' : Z) :
  s mod 256 = s' mod 256 -> makeHSV d s = makeHSV d s'.
Proof.
  intros H. rewrite (makeHSV_low_byte d s), (makeHSV_low_byte d s'), H.
  reflexivity.
Qed.

Lemma makeHSV_reads_low_byte_witness :
  0x12ab mod 256 = 0xffab mod 256 /\ makeHSV Hard 0x12ab = makeHSV Hard 0xffab.
Proof.
  split.
  - reflexivity.
  - apply (makeHSV_reads_low_byte Hard 0x12ab 0xffab). reflexivity.
Defined.

(** X7.  The Hard hue is exactly 5.625 times the six low bits of the
    seed, and the whole Hard colour depends on those six bits only: the
    seventh bit of the mask is undone by the reduction modulo 360. *)
Theorem makeHSVHard_closed_form (s : Z) :
  has_value (fst (fst (makeHSVHard s))) (Qmake (45 * (s mod 64)) 8)
  /\ makeHSVHard s = makeHSVHard (s mod 64).
Proof.
  assert (E64 : (s mod 256) mod 64 = s mod 64).
  { apply Z.mod_mod_divide. exists 4. reflexivity. }
  pose proof (at_low_byte hard_checkb s hard_check) as H.
  unfold hard_checkb in H. rewrite E64 in H.
  change (makeHSVHard s) with (makeHSV Hard s).
  rewrite (makeHSV_low_byte Hard s). cbn [makeHSV].
  destruct (makeHSVHard (s mod 256)) as [[h x] y] eqn:E.
  apply andb_true_iff in H as [Hv He].
  split.
  - apply has_valueb_iff. exact Hv.
  - apply triple_eqb_eq. exact He.
Qed.

(** X8.  The Medium hue is exactly 45/32 times the low byte of the seed;
    it stays below 360, so the reduction modulo 360 never wraps. *)
Theorem makeHSVMedium_hue (s : Z) :
  has_value (fst (fst (makeHSVMedium s))) (Qmake (45 * (s mod 256)) 32)
  /\ (Qmake (45 * (s mod 256)) 32 < 360)%Q.
Proof.
  split.
  - pose proof (at_low_byte medium_checkb s medium_check) as H.
    unfold medium_checkb in H.
    change (makeHSVMedium s) with (makeHSV Medium s).
    rewrite (makeHSV_low_byte Medium s). cbn [makeHSV].
    destruct (makeHSVMedium (s mod 256)) as [[h x] y].
    apply has_valueb_iff. exact H.
  - pose proof (Z.mod_pos_bound s 256 eq_refl).
    unfold Qlt. cbn [Qnum Qden]. lia.
Qed.

(** X9.  With [k] the low byte of the seed, the Easy hue is below 360 and
    within 2^-40 of [10 k mod 360]; it is exactly that number unless [k]
    is one of the fifteen bytes of [easy_inexact], where the division by
    6 leaves a rounding error. *)
Theorem makeHSVEasy_hue (s : Z) :
  let k := s mod 256 in
  let h := fst (fst (makeHSVEasy s)) in
  let q := inject_Z ((10 * k) mod 360) in
  (has_value h q <-> ~ In k easy_inexact)
  /\ (exists v, exact_value h = Some v /\ (Qabs (v - q) <= easy_eps)%Q)
  /\ JS.ltb h #360%js = true.
Proof.
  cbv zeta.
  pose proof (at_low_byte easy_checkb s easy_check) as H.
  unfold easy_checkb in H.
  change (makeHSVEasy s) with (makeHSV Easy s).
  rewrite (makeHSV_low_byte Easy s). cbn [makeHSV].
  destruct (makeHSVEasy (s mod 256)) as [[h x] y]. cbn [fst].
  apply andb_true_iff in H as [H Hlt].
  apply andb_true_iff in H as [Hv Hn].
  repeat split; trivial.
  - intros Hh Hin. apply has_valueb_iff in Hh. apply Z_mem_iff in Hin.
    rewrite Hin, Hh in Hv. discriminate.
  - intros Hnin. apply has_valueb_iff.
    destruct (Z_mem (s mod 256) easy_inexact) eqn:Hm; [|exact Hv].
    apply Z_mem_iff in Hm. contradiction.
  - unfold near_valueb in Hn.
    destruct (exact_value h) as [v |]; [|discriminate].
    exists v. split; [reflexivity|]. apply Qle_bool_iff. exact Hn.
Qed.

(** X10.  In the three difficulties alike, the second and the third
    component of the colour are exactly 6.25 times the low nibble of the
    seed: sixteen levels from 0 to 93.75, never 100. *)
Theorem makeHSV_percent_closed_form (d : GuesserDifficulty) (s : Z) :
  has_value (snd (fst (makeHSV d s))) (Qmake (25 * (s mod 16)) 4)
  /\ has_value (snd (makeHSV d s)) (Qmake (25 * (s mod 16)) 4)
  /\ (0 <= Qmake (25 * (s mod 16)) 4 <= Qmake 375 4)%Q.
Proof.
  assert (E16 : (s mod 256) mod 16 = s mod 16).
  { apply Z.mod_mod_divide. exists 16. reflexivity. }
  pose proof (at_low_byte (percent_checkb d) s (percent_check d)) as H.
  unfold percent_checkb in H. rewrite E16 in H.
  rewrite (makeHSV_low_byte d s).
  destruct (makeHSV d (s mod 256)) as [[h x] y]. cbn [fst snd].
  apply andb_true_iff in H as [Hx Hy].
  repeat split; try (apply has_valueb_iff; assumption).
  - pose proof (Z.mod_pos_bound s 16 eq_refl).
    unfold Qle. cbn [Qnum Qden]. lia.
  - pose proof (Z.mod_pos_bound s 16 eq_refl).
    unfold Qle. cbn [Qnum Qden]. lia.
Qed.

(** ** Reachable rounds *)

Section Reachable.

Lemma untouched_check : all_below 256 untouched_checkb = true.
Proof. vm_compute. reflexivity. Qed.

Lemma fresh_check (d : GuesserDifficulty) :
  all_below 256 (fresh_checkb d) = true.
Proof. destruct d; vm_compute; reflexivity. Qed.

Lemma makeHSV_next_byte (d : GuesserDifficulty) (s : Z) :
  makeHSV d (next s) = makeHSV d (next (s mod 256)).
Proof.
  rewrite (makeHSV_low_byte d (next s)), (makeHSV_low_byte d (next (s mod 256))).
  rewrite (next_byte s). reflexivity.
Qed.

Lemma makeHSV_next_next_byte (d : GuesserDifficulty) (s : Z) :
  makeHSV d (next (next s)) = makeHSV d (next (next (s mod 256))).
Proof.
  rewrite (makeHSV_low_byte d (next (next s))).
  rewrite (makeHSV_low_byte d (next (next (s mod 256)))).
  rewrite (next_byte (next s)), (next_byte (next (s mod 256))).
  rewrite (next_byte s). reflexivity.
Qed.

Lemma fresh_colours (d : GuesserDifficulty) (s : Z) :
  colour_matchb (makeHSV d (next s)) (makeHSV d s) = false
  /\ colour_matchb (makeHSV d s) (makeHSV d (next s)) = false
  /\ colour_matchb (makeHSV d (next (next s))) (makeHSV d s) = false.
Proof.
  pose proof (at_low_byte (fresh_checkb d) s (fresh_check d)) as H.
  unfold fresh_checkb in H.
  rewrite (makeHSV_next_byte d s), (makeHSV_next_next_byte d s).
  rewrite (makeHSV_low_byte d s).
  apply andb_true_iff in H as [H H3].
  apply andb_true_iff in H as [H1 H2].
  apply negb_true_iff in H1, H2, H3. auto.
Qed.

(** The score after a check, by the test of the guess against the
    round's colour. *)
Lemma doCheck_score (st : App.state) :
  GuesserSession.score (App.session (App.doCheck st))
  = GuesserSession.score (App.session st)
    + (if colour_matchb (App.hue st, App.sat st, App.val st)
                        (round_colour (App.round st))
       then 1 else 0).
Proof. reflexivity. Qed.

(** The first round shows the Easy colour of the low byte of the clock
    reading. *)
Lemma init_round_colour (now : Z) :
  round_colour (App.round (App.init now)) = makeHSVEasy (now mod 256).
Proof.
  change (round_colour (App.round (App.init now)))
    with (round_colour (makeRound Easy (JS.band now (Z.ones 16)))).
  rewrite makeRound_colour, band_ones by lia.
  rewrite makeHSV_low_byte. change (2 ^ 16) with 65536.
  replace ((now mod 65536) mod 256) with (now mod 256); [reflexivity|].
  symmetry. apply Z.mod_mod_divide. exists 256. reflexivity.
Qed.

(** In every state the page reaches, the game is on Easy, the session
    keeps the seed it started from, and the round shows the Easy colour
    of a seed of the sequence and carries the following one. *)
Lemma reachable_round (now : Z) (evs : list App.event) :
  let st := App.run (App.init now) evs in
  GuesserSession.difficulty (App.session st) = Easy
  /\ GuesserSession.seed (App.session st) = now mod 65536
  /\ exists k : nat,
       (k <= length evs)%nat
       /\ round_colour (App.round st)
          = makeHSVEasy (Nat.iter k next (now mod 65536))
       /\ GuesserRound.seed (App.round st)
          = Nat.iter (S k) next (now mod 65536).
Proof.
  cbv zeta. induction evs as [| ev evs IH] using rev_ind.
  - split; [reflexivity|]. split; [apply init_seed|].
    exists 0%nat. split; [simpl; lia|].
    pose proof (init_seed now) as Hs.
    unfold App.run. cbn [fold_left].
    unfold App.init in *. cbn [App.round App.session] in *.
    cbn [initSession GuesserSession.difficulty GuesserSession.seed] in *.
    rewrite makeRound_colour, makeRound_seed, Hs. split; reflexivity.
  - rewrite run_snoc, length_app. cbn [length].
    set (st := App.run (App.init now) evs) in *.
    destruct IH as (Hd & Hs & k & Hk & Hcol & Hseed).
    destruct (step_session_frame st ev) as [Ed Es].
    split; [congruence|]. split; [congruence|].
    assert (Hnext : exists k' : nat,
               (k' <= length evs + 1)%nat
               /\ round_colour (App.round (App.doNext st))
                  = makeHSVEasy (Nat.iter k' next (now mod 65536))
               /\ GuesserRound.seed (App.round (App.doNext st))
                  = Nat.iter (S k') next (now mod 65536)).
    { exists (S k). split; [lia|].
      cbn [App.doNext App.setRound App.round].
      rewrite makeRound_colour, makeRound_seed, Hd, Hseed.
      split; reflexivity. }
    assert (Hsame : exists k' : nat,
               (k' <= length evs + 1)%nat
               /\ round_colour (App.round st)
                  = makeHSVEasy (Nat.iter k' next (now mod 65536))
               /\ GuesserRound.seed (App.round st)
                  = Nat.iter (S k') next (now mod 65536)).
    { exists k. split; [lia|]. split; assumption. }
    destruct ev; cbn [App.step]; try exact Hsame; try exact Hnext.
    unfold App.onClick. destruct (GuesserRound.checking (App.round st));
      [exact Hnext | exact Hsame].
Qed.

End Reachable.

(** X11.  In every state the page reaches, whatever the events, the
    difficulty is Easy and the session's seed is the clock reading modulo
    65536; the round shows the Easy colour of a seed of the sequence
    started there and carries the seed after it.  The Medium and Hard
    derivations are never used. *)
Theorem page_stays_on_easy (now : Z) (evs : list App.event) :
  let st := App.run (App.init now) evs in
  let s0 := now mod 65536 in
  GuesserSession.difficulty (App.session st) = Easy
  /\ GuesserSession.seed (App.session st) = s0
  /\ 0 <= s0 <= 65535
  /\ exists k : nat,
       (k <= length evs)%nat
       /\ round_colour (App.round st) = makeHSVEasy (Nat.iter k next s0)
       /\ GuesserRound.seed (App.round st) = Nat.iter (S k) next s0.
Proof.
  cbv zeta. destruct (reachable_round now evs) as (Hd & Hs & Hk).
  repeat split; trivial;
    pose proof (Z.mod_pos_bound now 65536 eq_refl); lia.
Qed.

(** X12.  When the handlers are called through the button only, after
    [n] presses (and any slider moves) the round is in its checking phase
    exactly when [n] is odd, the guess count is [n / 2] rounded up, the
    round shows the colour of the seed [n / 2] steps from the start and
    carries the next one: each round is checked once and only once. *)
Theorem button_alternates (now : Z) (evs : list App.event) :
  forallb ui_event evs = true ->
  let st := App.run (App.init now) evs in
  let n := clicks evs in
  GuesserRound.checking (App.round st) = Nat.odd n
  /\ GuesserSession.guessed (App.session st) = Z.of_nat (Nat.div2 (S n))
  /\ round_colour (App.round st)
     = makeHSVEasy (Nat.iter (Nat.div2 n) next (now mod 65536))
  /\ GuesserRound.seed (App.round st)
     = Nat.iter (S (Nat.div2 n)) next (now mod 65536).
Proof. apply ui_run. Qed.

Lemma button_alternates_witness :
  forallb ui_event [App.MoveHue #60%js; App.Click; App.Click; App.Click] = true
  /\ (let st := App.run (App.init 77)
                  [App.MoveHue #60%js; App.Click; App.Click; App.Click] in
      let n := clicks [App.MoveHue #60%js; App.Click; App.Click; App.Click] in
      GuesserRound.checking (App.round st) = Nat.odd n
      /\ GuesserSession.guessed (App.session st) = Z.of_nat (Nat.div2 (S n))
      /\ round_colour (App.round st)
         = makeHSVEasy (Nat.iter (Nat.div2 n) next (77 mod 65536))
      /\ GuesserRound.seed (App.round st)
         = Nat.iter (S (Nat.div2 n)) next (77 mod 65536)).
Proof.
  split.
  - reflexivity.
  - apply (button_alternates 77
             [App.MoveHue #60%js; App.Click; App.Click; App.Click]).
    reflexivity.
Defined.

(** X13.  The debug table has ten rows; row [k] has key [k], shows the
    seed carried after [k] advances and the hue, saturation and value of
    the round that [k + 1] advances lead to: the table previews the next
    ten rounds. *)
Theorem debug_previews_rounds (st : App.state) (k : nat) :
  (k < 10)%nat ->
  let r := App.round (Nat.iter (S k) App.doNext st) in
  length (debug st) = 10%nat
  /\ nth_error (debug st) k
     = Some (Build_debug_row (Z.of_nat k)
               (GuesserRound.seed (App.round (Nat.iter k App.doNext st)))
               (GuesserRound.hue r)
               (GuesserRound.saturation r)
               (GuesserRound.value r)).
Proof.
  intros Hk. cbv zeta.
  pose proof (iter_doNext_colour k st) as Hcol. unfold round_colour in Hcol.
  rewrite iter_doNext_seed, debug_eq.
  split; [reflexivity|].
  assert (Hnth : nth_error (seq 0 10) k = Some k).
  { do 10 (destruct k as [| k]; [reflexivity|]). lia. }
  rewrite (map_nth_error _ _ _ Hnth). cbv zeta.
  rewrite <- Hcol. reflexivity.
Qed.

Lemma debug_previews_rounds_witness :
  (9 < 10)%nat
  /\ (let r := App.round (Nat.iter 10 App.doNext (App.init 5)) in
      length (debug (App.init 5)) = 10%nat
      /\ nth_error (debug (App.init 5)) 9
         = Some (Build_debug_row 9
                   (GuesserRound.seed
                      (App.round (Nat.iter 9 App.doNext (App.init 5))))
                   (GuesserRound.hue r)
                   (GuesserRound.saturation r)
                   (GuesserRound.value r))).
Proof.
  split.
  - lia.
  - apply (debug_previews_rounds (App.init 5) 9). lia.
Defined.

(** X14.  An advance shifts the debug table up by one row: the cells of
    its first nine rows are those of the last nine rows before. *)
Theorem debug_shifts_on_advance (st : App.state) :
  firstn 9 (map row_cells (debug (App.doNext st)))
  = skipn 1 (map row_cells (debug st)).
Proof.
  rewrite !debug_eq.
  cbn [App.doNext App.setRound App.round App.session].
  rewrite makeRound_seed.
  cbn [seq map firstn skipn]. unfold row_cells.
  cbn [row_seed row_h row_s row_v].
  rewrite <- !Nat.iter_succ_r. reflexivity.
Qed.

(** X15.  A first check made without touching the sliders scores exactly
    when the low byte of the clock reading is 0 or 144, the two bytes
    whose Easy colour is (0, 0, 0). *)
Theorem untouched_first_check (now : Z) :
  let score := GuesserSession.score (App.session (App.doCheck (App.init now))) in
  (score = 1 <-> now mod 256 = 0 \/ now mod 256 = 144)
  /\ (score = 0 <-> ~ (now mod 256 = 0 \/ now mod 256 = 144)).
Proof.
  cbv zeta. rewrite doCheck_score.
  change (GuesserSession.score (App.session (App.init now))) with 0.
  change (App.hue (App.init now)) with #0%js.
  change (App.sat (App.init now)) with #0%js.
  change (App.val (App.init now)) with #0%js.
  rewrite init_round_colour.
  pose proof (at_low_byte untouched_checkb now untouched_check) as H.
  unfold untouched_checkb in H. apply Bool.eqb_prop in H. rewrite H.
  destruct (Z.eqb_spec (now mod 256) 0), (Z.eqb_spec (now mod 256) 144);
    cbn [orb]; split; split; intros; try lia; tauto.
Qed.


(** X17.  In every state the page reaches, an advance replaces the colour
    by one that a guess equal to the old colour does not match. *)
Theorem advance_changes_colour (now : Z) (evs : list App.event) :
  let st := App.run (App.init now) evs in
  colour_matchb (round_colour (App.round st))
                (round_colour (App.round (App.doNext st))) = false.
Proof.
  cbv zeta.
  destruct (reachable_round now evs) as (Hd & _ & k & _ & Hcol & Hseed).
  cbn [App.doNext App.setRound App.round].
  rewrite makeRound_colour, Hd, Hseed, Hcol.
  change (makeHSVEasy (Nat.iter k next (now mod 65536)))
    with (makeHSV Easy (Nat.iter k next (now mod 65536))).
  rewrite Nat.iter_succ.
  apply (fresh_colours Easy (Nat.iter k next (now mod 65536))).
Qed.
